(** * Planet CRS Registry: the services router

    A shallow embedding of [planet_crs_registry/core/routers/ws_router.py]
    (the FastAPI route handlers and the start-up ingestion) and the
    properties of its HTTP contract.

    Conventions of the embedding.
    - A Python [str] is a [string]; its characters are the ASCII ones, and
      the characters above 127 are left alone by [lower] and belong to
      neither [\d] nor [\s].
    - A Python [int] is a [Z].
    - A handler that raises returns [Raise e]; the exceptions are those the
      module can meet ([HTTPException], the request validation error of the
      framework, and the built-in errors of the start-up routine).
    - The table behind [WKT_model] is the list of its rows in insertion
      order; the query sets of the ORM (an external library) are given
      their SQL reading: WHERE, then GROUP BY, then ORDER BY, then
      OFFSET/LIMIT. *)

From Stdlib Require Import ZArith List String Ascii Bool Lia.
From Stdlib Require Import DecimalString Sorting.Sorted Sorting.Permutation.
Import ListNotations.

Local Open Scope string_scope.
Local Open Scope list_scope.
Local Open Scope Z_scope.

(* ================================================================= *)
(** ** Python strings *)

Module Str.

(** [str(z)] and the [{z}] of an f-string, for an integer. *)
Definition of_int (z : Z) : string := NilZero.string_of_int (Z.to_int z).

Definition code (a : ascii) : N := N_of_ascii a.

Definition isupper (a : ascii) : bool :=
  ((65 <=? code a) && (code a <=? 90))%N.

Definition lower_char (a : ascii) : ascii :=
  if isupper a then ascii_of_N (code a + 32) else a.

(** [s.lower()]. *)
Fixpoint lower (s : string) : string :=
  match s with
  | EmptyString => EmptyString
  | String a s' => String (lower_char a) (lower s')
  end.

(** The decimal digits, [\d]. *)
Definition isdigit (a : ascii) : bool :=
  ((48 <=? code a) && (code a <=? 57))%N.

(** The white space of [\s] and of [str.isspace]: tab, line feed,
    vertical tab, form feed, carriage return, the four separators
    0x1c-0x1f and the space. *)
Definition isspace (a : ascii) : bool :=
  (((9 <=? code a) && (code a <=? 13))
   || ((28 <=? code a) && (code a <=? 32)))%N.

Definition newline : ascii := ascii_of_N 10.
Definition colon : ascii := ":"%char.

Fixpoint forallb (f : ascii -> bool) (s : string) : bool :=
  match s with
  | EmptyString => true
  | String a s' => f a && forallb f s'
  end.

(** The longest prefix of [s] whose characters all satisfy [f]. *)
Fixpoint take_while (f : ascii -> bool) (s : string) : string :=
  match s with
  | EmptyString => EmptyString
  | String a s' => if f a then String a (take_while f s') else EmptyString
  end.

Fixpoint drop_while (f : ascii -> bool) (s : string) : string :=
  match s with
  | EmptyString => EmptyString
  | String a s' => if f a then drop_while f s' else s
  end.

(** The first white-space delimited token of [s], as [s.split()[0]]
    reads it: leading white space is skipped, then the token runs up to
    the next white space. *)
Definition first_token (s : string) : string :=
  take_while (fun a => negb (isspace a)) (drop_while isspace s).

End Str.

(* ================================================================= *)
(** ** The fragment of Python's [re] the module uses *)

Module re.

Inductive cclass : Type :=
| Dot                (* [.]    : any character but the line feed *)
| Digit              (* [\d]   *)
| NotSpace           (* [[^\s]] *)
| Lit (c : ascii).   (* a literal character *)

Inductive item : Type :=
| Caret              (* [^] : start of the string *)
| Dollar             (* [$] : end of the string, or before a final line feed *)
| One (c : cclass)
| Star (c : cclass)  (* [c*], greedy *)
| Plus (c : cclass). (* [c+], greedy *)

Definition pattern := list item.

Definition cmatch (c : cclass) (a : ascii) : bool :=
  match c with
  | Dot => negb (Ascii.eqb a Str.newline)
  | Digit => Str.isdigit a
  | NotSpace => negb (Str.isspace a)
  | Lit x => Ascii.eqb a x
  end.

(** Where [$] matches: at the end, or just before a line feed that ends
    the string. *)
Definition at_end (s : string) : bool :=
  match s with
  | EmptyString => true
  | String a EmptyString => Ascii.eqb a Str.newline
  | _ => false
  end.

(** Greedy repetition with backtracking: take the character when it is
    in the class and the rest then matches, otherwise go on with the
    continuation [k] from here.  [bol] tells whether the position is the
    start of the string. *)
Fixpoint star (cm : ascii -> bool) (k : bool -> string -> option string)
         (bol : bool) (s : string) {struct s} : option string :=
  match s with
  | String a s' =>
      if cm a then
        match star cm k false s' with
        | Some m => Some (String a m)
        | None => k bol s
        end
      else k bol s
  | EmptyString => k bol s
  end.

(** The text matched by [p] at the head of [s], when there is a match. *)
Fixpoint match_here (p : pattern) (bol : bool) (s : string) {struct p}
  : option string :=
  match p with
  | [] => Some EmptyString
  | Caret :: p' => if bol then match_here p' bol s else None
  | Dollar :: p' => if at_end s then match_here p' bol s else None
  | One c :: p' =>
      match s with
      | String a s' =>
          if cmatch c a then option_map (String a) (match_here p' false s')
          else None
      | EmptyString => None
      end
  | Star c :: p' => star (cmatch c) (match_here p') bol s
  | Plus c :: p' =>
      match s with
      | String a s' =>
          if cmatch c a
          then option_map (String a) (star (cmatch c) (match_here p') false s')
          else None
      | EmptyString => None
      end
  end.

(** Whether the position after the text [p] is still the start of the
    string: only when [p] is empty and the position before it was. *)
Definition after (p : string) (bol : bool) : bool :=
  match p with EmptyString => bol | String _ _ => false end.

(** [re.match(p, s)]: a match at the start of [s], not necessarily up to
    its end; the result is [group(0)], or [None]. *)
Definition match_ (p : pattern) (s : string) : option string :=
  match_here p true s.

Definition is_match (p : pattern) (s : string) : bool :=
  match match_ p s with Some _ => true | None => false end.

End re.

(* ================================================================= *)
(** ** Exceptions and results *)

Inductive exn : Type :=
| HTTPException (status_code : Z) (detail : string)
| RequestValidationError   (* raised by the framework before the handler runs *)
| AttributeError           (* [None.group(0)] *)
| ValueError               (* [int(x)] on something that is no integer *)
| IntegrityError.          (* a second row with the same primary key *)

Module status.
Definition HTTP_400_BAD_REQUEST : Z := 400.
Definition HTTP_404_NOT_FOUND : Z := 404.
End status.

Inductive result (A : Type) : Type :=
| Return (a : A)
| Raise (e : exn).

Arguments Return {A} a.
Arguments Raise {A} e.

Definition bind {A B : Type} (m : result A) (k : A -> result B) : result B :=
  match m with
  | Return a => k a
  | Raise e => Raise e
  end.

Notation "x <- m ;; k" := (bind m (fun x => k))
  (at level 61, m at next level, right associativity).

(* ================================================================= *)
(** ** The model and the query sets of the ORM *)

Module WKT_model.

(** The columns are those the start-up routine fills in. *)
Record t : Type := Build {
  id : string;
  version : Z;
  code : Z;
  solar_body : string;
  datum_name : string;
  ellipsoid_name : string;
  projection_name : string;
  wkt : string
}.

End WKT_model.

(** The rows of the table, oldest first. *)
Definition table := list WKT_model.t.

Module QuerySet.

(** A query set under construction: the conditions of its WHERE clause
    and its LIMIT and OFFSET, each set by the call of the same name. *)
Record t : Type := Build {
  _filters : list (WKT_model.t -> bool);
  _limit : option Z;
  _offset : option Z
}.

Definition all : t :=
  {| _filters := []; _limit := None; _offset := None |}.

Definition filter (f : WKT_model.t -> bool) (q : t) : t :=
  {| _filters := _filters q ++ [f]; _limit := _limit q; _offset := _offset q |}.

Definition limit (n : Z) (q : t) : t :=
  {| _filters := _filters q; _limit := Some n; _offset := _offset q |}.

Definition offset (n : Z) (q : t) : t :=
  {| _filters := _filters q; _limit := _limit q; _offset := Some n |}.

Definition where_ (q : t) (r : WKT_model.t) : bool :=
  List.forallb (fun f => f r) (_filters q).

Definition apply_offset (o : option Z) (rs : list WKT_model.t) :=
  match o with
  | Some n => skipn (Z.to_nat n) rs
  | None => rs
  end.

Definition apply_limit (l : option Z) (rs : list WKT_model.t) :=
  match l with
  | Some n => firstn (Z.to_nat n) rs
  | None => rs
  end.

(** Awaiting the query set: the rows that pass the conditions, in
    insertion order, without the first [_offset] of them and cut after
    [_limit]. *)
Definition rows (db : table) (q : t) : list WKT_model.t :=
  apply_limit (_limit q) (apply_offset (_offset q) (List.filter (where_ q) db)).

(** [.count()]: the number of objects of the query set.  The ORM is not
    part of the repository; on a query set with a LIMIT and an OFFSET the
    count is read as the spec reads it, pagination first and then the
    count, that is the number of rows of the page. *)
Definition count (db : table) (q : t) : Z :=
  Z.of_nat (List.length (rows db q)).

Section Values.
Context {K : Type}.
Variable eqb : K -> K -> bool.
Variable leb : K -> K -> bool.
Variable field : WKT_model.t -> K.

(** GROUP BY [field]: one row for each value of the column. *)
Fixpoint group_by (rs : list WKT_model.t) : list WKT_model.t :=
  match rs with
  | [] => []
  | r :: rs' =>
      if existsb (fun r' => eqb (field r) (field r')) rs'
      then group_by rs'
      else r :: group_by rs'
  end.

Fixpoint insert (r : WKT_model.t) (rs : list WKT_model.t) : list WKT_model.t :=
  match rs with
  | [] => [r]
  | r' :: rs' =>
      if leb (field r) (field r') then r :: rs else r' :: insert r rs'
  end.

(** ORDER BY [field], ascending. *)
Fixpoint order_by (rs : list WKT_model.t) : list WKT_model.t :=
  match rs with
  | [] => []
  | r :: rs' => insert r (order_by rs')
  end.

(** [.values(field)]: the column alone. *)
Definition values (rs : list WKT_model.t) : list K := map field rs.

(** [all().group_by(field).order_by(field).values(field)], awaited. *)
Definition column (db : table) : list K :=
  values (order_by (group_by (rows db all))).

(** The order of ORDER BY, as a relation. *)
Definition ascending (x y : K) : Prop := leb x y = true.

End Values.

Arguments ascending {K} leb x y /.

End QuerySet.

(** [Lower(column)], the SQL function the ORM applies to a column. *)
Definition Lower (s : string) : string := Str.lower s.

(* ================================================================= *)
(** ** Declared parameters: [Query(...)] and [Path(...)] *)

Record IntParam : Type := {
  default : Z;
  gt : option Z;
  le : option Z
}.

Definition LIMIT_QUERY : IntParam :=
  {| default := 50; gt := Some (-1); le := Some 100 |}.

Definition OFFSET_QUERY : IntParam :=
  {| default := 0; gt := Some (-1); le := None |}.

(** [Path(default=2015, gt=2014)], the [version_id] of three routes. *)
Definition VERSION_PATH : IntParam :=
  {| default := 2015; gt := Some 2014; le := None |}.

Definition in_bounds (p : IntParam) (v : Z) : bool :=
  match gt p with Some b => b <? v | None => true end
  && match le p with Some b => v <=? b | None => true end.

(** A query parameter left out takes its default; one that is given is
    checked against the bounds before the handler is called. *)
Definition query_param (p : IntParam) (v : option Z) : result Z :=
  match v with
  | None => Return (default p)
  | Some z => if in_bounds p z then Return z else Raise RequestValidationError
  end.

(** A path parameter is always given. *)
Definition path_param (p : IntParam) (v : Z) : result Z :=
  if in_bounds p v then Return v else Raise RequestValidationError.

(** [regex="^.*:\d*:\d*$"], on the [wkt_id] of [get_wkt_version] and of
    [get_wkt_body]. *)
Definition WKT_ID_REGEX : re.pattern :=
  [re.Caret; re.Star re.Dot; re.One (re.Lit Str.colon); re.Star re.Digit;
   re.One (re.Lit Str.colon); re.Star re.Digit; re.Dollar].

(** [regex="^.*:\d*:\d*"], on the [wkt_id] of [get_wkt]. *)
Definition WKT_ID_REGEX_OPEN : re.pattern :=
  [re.Caret; re.Star re.Dot; re.One (re.Lit Str.colon); re.Star re.Digit;
   re.One (re.Lit Str.colon); re.Star re.Digit].


(** A string parameter constrained by [regex]: the value passes when
    [re.match] finds a match. *)
Definition regex_param (p : re.pattern) (s : string) : result string :=
  if re.is_match p s then Return s else Raise RequestValidationError.

(* ================================================================= *)
(** ** The collaborator [query_search] *)

Module query_search.

(** Modelled from the spec: [query_search.get_wkt_obj] is not part of the
    router module.  The spec gives its contract: [get_wkt_obj(id)] returns
    the record with that id and fails with NotFound, an HTTP 404 whose
    message names the unmatched key, if no record has that id. *)
Definition get_wkt_obj (db : table) (wkt_id : string) : result WKT_model.t :=
  match List.find (fun r => String.eqb (WKT_model.id r) wkt_id) db with
  | Some wkt_obj => Return wkt_obj
  | None =>
      Raise (HTTPException status.HTTP_404_NOT_FOUND
               (wkt_id ++ " not found")%string)
  end.

End query_search.

(* ================================================================= *)
(** ** The route handlers *)

Section Router.

(** The three entry points of [query_search] the handlers call; a handler
    is read for any implementation of them. *)
Variable get_wkt_obj : table -> string -> result WKT_model.t.
Variable search_term : table -> string -> Z -> Z -> result (list WKT_model.t).
Variable search_term_count : table -> string -> result Z.

(** [for obj in objs: acc.append(obj[column])]. *)
Definition collect {K : Type} (objs : list K) : list K :=
  fold_left (fun acc obj => acc ++ [obj]) objs [].

Definition get_wkts (db : table) (limit offset : option Z)
  : result (list WKT_model.t) :=
  limit <- query_param LIMIT_QUERY limit ;;
  offset <- query_param OFFSET_QUERY offset ;;
  Return (QuerySet.rows db
            (QuerySet.offset offset (QuerySet.limit limit QuerySet.all))).

Definition wkts_count (db : table) : result Z :=
  Return (QuerySet.count db QuerySet.all).

Definition get_versions (db : table) : result (list Z) :=
  let objs :=
    QuerySet.values WKT_model.version
      (QuerySet.order_by Z.leb WKT_model.version
         (QuerySet.group_by Z.eqb WKT_model.version
            (QuerySet.rows db QuerySet.all))) in
  Return (collect objs).

Definition get_version (db : table) (version_id : Z) (limit offset : option Z)
  : result (list WKT_model.t) :=
  version_id <- path_param VERSION_PATH version_id ;;
  limit <- query_param LIMIT_QUERY limit ;;
  offset <- query_param OFFSET_QUERY offset ;;
  let obj :=
    QuerySet.rows db
      (QuerySet.offset offset
         (QuerySet.limit limit
            (QuerySet.filter (fun r => WKT_model.version r =? version_id)
               QuerySet.all))) in
  if (List.length obj =? 0)%nat then
    Raise (HTTPException status.HTTP_404_NOT_FOUND
             (Str.of_int version_id ++ " not found")%string)
  else Return obj.

Definition version_count (db : table) (version_id : Z) : result Z :=
  version_id <- path_param VERSION_PATH version_id ;;
  Return (QuerySet.count db
            (QuerySet.filter (fun r => WKT_model.version r =? version_id)
               QuerySet.all)).

Definition get_wkt_version (db : table) (version_id : Z) (wkt_id : string)
  : result string :=
  version_id <- path_param VERSION_PATH version_id ;;
  wkt_id <- regex_param WKT_ID_REGEX wkt_id ;;
  wkt_obj <- get_wkt_obj db wkt_id ;;
  if negb (WKT_model.version wkt_obj =? version_id) then
    Raise (HTTPException status.HTTP_400_BAD_REQUEST
             ("Wrong version " ++ Str.of_int version_id
                ++ " for this WKT " ++ wkt_id)%string)
  else Return (WKT_model.wkt wkt_obj).

Definition get_wkt (db : table) (wkt_id : string) : result string :=
  wkt_id <- regex_param WKT_ID_REGEX_OPEN wkt_id ;;
  wkt_obj <- get_wkt_obj db wkt_id ;;
  Return (WKT_model.wkt wkt_obj).

Definition get_solar_bodies (db : table) : result (list string) :=
  let objs :=
    QuerySet.values WKT_model.solar_body
      (QuerySet.order_by String.leb WKT_model.solar_body
         (QuerySet.group_by String.eqb WKT_model.solar_body
            (QuerySet.rows db QuerySet.all))) in
  Return (collect objs).

Definition solar_bodies_count (db : table) : result Z :=
  let objs :=
    QuerySet.values WKT_model.solar_body
      (QuerySet.order_by String.leb WKT_model.solar_body
         (QuerySet.group_by String.eqb WKT_model.solar_body
            (QuerySet.rows db QuerySet.all))) in
  Return (Z.of_nat (List.length (collect objs))).

(** [annotate(solar_body_lower=Lower("solar_body"))
     .filter(solar_body_lower=solar_body.lower())]. *)
Definition solar_body_is (solar_body : string) (r : WKT_model.t) : bool :=
  String.eqb (Lower (WKT_model.solar_body r)) (Str.lower solar_body).


Definition get_solar_body_count (db : table) (solar_body : string)
           (limit offset : option Z) : result Z :=
  limit <- query_param LIMIT_QUERY limit ;;
  offset <- query_param OFFSET_QUERY offset ;;
  let obj :=
    QuerySet.count db
      (QuerySet.offset offset
         (QuerySet.limit limit
            (QuerySet.filter (solar_body_is solar_body) QuerySet.all))) in
  Return obj.

Definition get_wkt_body (db : table) (solar_body wkt_id : string)
  : result string :=
  wkt_id <- regex_param WKT_ID_REGEX wkt_id ;;
  wkt_obj <- get_wkt_obj db wkt_id ;;
  if negb (String.eqb (Str.lower (WKT_model.solar_body wkt_obj))
                      (Str.lower solar_body)) then
    Raise (HTTPException status.HTTP_400_BAD_REQUEST
             (wkt_id ++ " not found for " ++ solar_body)%string)
  else Return (WKT_model.wkt wkt_obj).



(** *** The service: requests, responses, and the table across requests *)







End Router.

(* ================================================================= *)
(** ** The start-up routine *)

Module WktDatabase.

(** An entry of [WktDatabase().index], with the attributes the routine
    reads.  [iau] is the type of [iau_version] and of [iau_code]. *)
Record record (iau : Type) : Type := Build {
  iau_version : iau;
  iau_code : iau;
  datum : string;
  ellipsoid : string;
  projcrs : string;
  wkt : string
}.

Arguments Build {iau}.
Arguments iau_version {iau}.
Arguments iau_code {iau}.
Arguments datum {iau}.
Arguments ellipsoid {iau}.
Arguments projcrs {iau}.
Arguments wkt {iau}.

End WktDatabase.

(** [r"[^\s]+"], the pattern of the solar body. *)
Definition SOLAR_BODY_REGEX : re.pattern := [re.Plus re.NotSpace].

(** The pattern of a SQLite URL: the prefix, then the group [db_name],
    which is [.] repeated. *)
Definition SQLITE_PREFIX : string := "sqlite://".

Definition SQLITE_REGEX : re.pattern :=
  map (fun c => re.One (re.Lit c)) (list_ascii_of_string SQLITE_PREFIX)
    ++ [re.Star re.Dot].

(** [match.group("db_name")]: the match without the text before the group. *)
Definition db_name (group0 : string) : string :=
  String.substring (String.length SQLITE_PREFIX)
    (String.length group0 - String.length SQLITE_PREFIX) group0.

Section Startup.

(** The entries of the dataset come from [WktDatabase], which is not part
    of the router module: the type of [iau_version] and [iau_code] is a
    parameter, with its [int(x)] and its rendering [{x}] in an f-string. *)
Variable iau : Type.
Variable int : iau -> result Z.
Variable format : iau -> string.

(** Modelled from the spec: [WKT_model] is declared in [models], not in
    the router module; its [id] is the unique primary key, so creating a
    second row with an id already present fails.  A created row goes to
    the end of the table. *)
Definition create (row : WKT_model.t) (db : table) : result unit * table :=
  if existsb (fun r => String.eqb (WKT_model.id r) (WKT_model.id row)) db
  then (Raise IntegrityError, db)
  else (Return tt, db ++ [row]).

(** [.group(0)] on the result of [re.match]. *)
Definition group0 (m : option string) : result string :=
  match m with
  | Some g => Return g
  | None => Raise AttributeError
  end.

(** The dictionary [wkt_data] of one entry, its values evaluated in the
    order they are written. *)
Definition wkt_data (record : WktDatabase.record iau) : result WKT_model.t :=
  let id :=
    ("IAU:" ++ format (WktDatabase.iau_version record) ++ ":"
       ++ format (WktDatabase.iau_code record))%string in
  version <- int (WktDatabase.iau_version record) ;;
  code <- int (WktDatabase.iau_code record) ;;
  solar_body <-
    group0 (re.match_ SOLAR_BODY_REGEX (WktDatabase.datum record)) ;;
  Return {| WKT_model.id := id;
            WKT_model.version := version;
            WKT_model.code := code;
            WKT_model.solar_body := solar_body;
            WKT_model.datum_name := WktDatabase.datum record;
            WKT_model.ellipsoid_name := WktDatabase.ellipsoid record;
            WKT_model.projection_name := WktDatabase.projcrs record;
            WKT_model.wkt := WktDatabase.wkt record |}.

(** [for record in index: ... await WKT_model.create(...)]: the
    rows are created one by one, and an exception leaves the loop with
    the rows created so far in the table. *)
Fixpoint load (index : list (WktDatabase.record iau)) (db : table)
  : result unit * table :=
  match index with
  | [] => (Return tt, db)
  | record :: index' =>
      match wkt_data record with
      | Raise e => (Raise e, db)
      | Return row =>
          match create row db with
          | (Return _, db') => load index' db'
          | (Raise e, db') => (Raise e, db')
          end
      end
  end.

(** [file is None or not file.exists()], with [file] the path after the
    prefix of a SQLite URL and [None] for another URL. *)
Definition database_absent (db_url : string) (exists_ : string -> bool)
  : bool :=
  let match_ := re.match_ SQLITE_REGEX db_url in
  let file :=
    match match_ with
    | Some g => Some (db_name g)
    | None => None
    end in
  match file with
  | None => true
  | Some f => negb (exists_ f)
  end.

(** [startup_event]: [db_url] is the configured URL, [exists_] tells
    which files are on disk, [db] is the table as the database has it
    (without rows when the database is new) and [index] the dataset. *)
Definition startup_event (db_url : string) (exists_ : string -> bool)
           (index : list (WktDatabase.record iau)) (db : table)
  : result unit * table :=
  if database_absent db_url exists_ then load index db else (Return tt, db).


End Startup.

(* ================================================================= *)
(** ** Properties the claims speak of *)



(** A datum the pattern of the solar body cannot match: the empty one, or
    one that begins with white space. *)
Definition bad_datum (d : string) : bool :=
  match d with
  | EmptyString => true
  | String a _ => Str.isspace a
  end.

(** What the pattern [^.*:\\d*:\\d*$] accepts, spelled out: a prefix
    without line feed, a colon, digits (maybe none), a colon, digits (maybe
    none), and possibly one final line feed. *)
Definition wkt_id_shape (s : string) : Prop :=
  exists p d1 d2 e : string,
    s = (p ++ String Str.colon (d1 ++ String Str.colon (d2 ++ e)))%string
    /\ Str.forallb (re.cmatch re.Dot) p = true
    /\ Str.forallb Str.isdigit d1 = true
    /\ Str.forallb Str.isdigit d2 = true
    /\ re.at_end e = true.




(** A small table for the examples. *)
Definition mars_2015 : WKT_model.t :=
  {| WKT_model.id := "IAU:2015:49900";
     WKT_model.version := 2015;
     WKT_model.code := 49900;
     WKT_model.solar_body := "Mars";
     WKT_model.datum_name := "Mars (2015) - Sphere";
     WKT_model.ellipsoid_name := "Mars (2015) - Sphere";
     WKT_model.projection_name := "";
     WKT_model.wkt := "GEOGCRS[...]" |}.

Definition moon_2015 : WKT_model.t :=
  {| WKT_model.id := "IAU:2015:30100";
     WKT_model.version := 2015;
     WKT_model.code := 30100;
     WKT_model.solar_body := "Moon";
     WKT_model.datum_name := "Moon (2015) - Sphere";
     WKT_model.ellipsoid_name := "Moon (2015) - Sphere";
     WKT_model.projection_name := "";
     WKT_model.wkt := "GEOGCRS[moon]" |}.

Definition sample_db : table := [mars_2015; moon_2015].

(** A dataset whose entries carry Python integers: [int(x)] is [x] and
    [{x}] is its decimal numeral. *)
Definition int_of_int (x : Z) : result Z := Return x.

Definition mars_entry : WktDatabase.record Z :=
  WktDatabase.Build 2015 49900 "Mars (2015) - Sphere" "Mars (2015) - Sphere"
    "" "GEOGCRS[...]".

Definition moon_entry : WktDatabase.record Z :=
  WktDatabase.Build 2015 30100 "Moon (2015) - Sphere" "Moon (2015) - Sphere"
    "" "GEOGCRS[moon]".

(** An entry whose datum begins with a space. *)
Definition blank_entry : WktDatabase.record Z :=
  WktDatabase.Build 2015 19900 " Mercury (2015)" "Mercury (2015)" "" "GEOGCRS[]".

Definition sample_index : list (WktDatabase.record Z) :=
  [mars_entry; moon_entry].

Definition nothing_on_disk (file : string) : bool := false.

(* ================================================================= *)
(** * Lemmas *)

(** ** The matcher *)

Section StarLemmas.

Variable cm : ascii -> bool.
Variable k : bool -> string -> option string.

Lemma star_of_k (bol : bool) (s : string) :
  k bol s <> None -> re.star cm k bol s <> None.
Proof.
  intros Hk. destruct s as [|a s]; cbn [re.star]; [exact Hk|].
  destruct (cm a); [|exact Hk].
  destruct (re.star cm k false s); [discriminate | exact Hk].
Qed.

Lemma star_complete (p r : string) (bol : bool) :
  Str.forallb cm p = true ->
  k (re.after p bol) r <> None ->
  re.star cm k bol (p ++ r) <> None.
Proof.
  revert bol. induction p as [|a p IH]; intros bol Hp Hk.
  - now apply star_of_k.
  - cbn [Str.forallb] in Hp. apply andb_true_iff in Hp as [Ha Hp].
    cbn [append re.star]. rewrite Ha.
    specialize (IH false Hp).
    assert (Hk' : k (re.after p false) r <> None) by (destruct p; exact Hk).
    specialize (IH Hk').
    destruct (re.star cm k false (p ++ r)); [discriminate | congruence].
Qed.

Lemma star_sound (s : string) (bol : bool) :
  re.star cm k bol s <> None ->
  exists p r, s = (p ++ r)%string
              /\ Str.forallb cm p = true
              /\ k (re.after p bol) r <> None.
Proof.
  revert bol. induction s as [|a s IH]; intros bol H.
  - exists EmptyString, EmptyString. auto.
  - cbn [re.star] in H. destruct (cm a) eqn:Ha.
    + destruct (re.star cm k false s) eqn:Hs.
      * destruct (IH false) as (p & r & -> & Hp & Hk); [congruence|].
        exists (String a p), r. cbn [Str.forallb re.after append].
        rewrite Ha, Hp. repeat split. now destruct p.
      * exists EmptyString, (String a s). auto.
    + exists EmptyString, (String a s). auto.
Qed.

Lemma star_iff (s : string) (bol : bool) :
  re.star cm k bol s <> None <->
  exists p r, s = (p ++ r)%string
              /\ Str.forallb cm p = true
              /\ k (re.after p bol) r <> None.
Proof.
  split; [apply star_sound|].
  intros (p & r & -> & Hp & Hk). now apply star_complete.
Qed.

End StarLemmas.

Lemma is_match_iff (p : re.pattern) (s : string) :
  re.is_match p s = true <-> re.match_here p true s <> None.
Proof.
  unfold re.is_match, re.match_.
  destruct (re.match_here p true s); split; congruence.
Qed.

Lemma option_map_none {A B : Type} (f : A -> B) (o : option A) :
  option_map f o <> None <-> o <> None.
Proof. destruct o; simpl; split; congruence. Qed.

(** One literal character at the head of the pattern. *)
Lemma match_lit (c : ascii) (p : re.pattern) (bol : bool) (s : string) :
  re.match_here (re.One (re.Lit c) :: p) bol s <> None <->
  exists s', s = String c s' /\ re.match_here p false s' <> None.
Proof.
  cbn [re.match_here re.cmatch]. destruct s as [|a s].
  - split; [congruence | intros (s' & H & _); discriminate].
  - destruct (Ascii.eqb_spec a c) as [->|Hne].
    + rewrite option_map_none. split.
      * intros H. now exists s.
      * intros (s' & [= ->] & H). exact H.
    + split; [congruence | intros (s' & [= ? ?] & _); congruence].
Qed.

(** The tail [\d*$] of the anchored pattern. *)
Lemma match_digits_end (bol : bool) (s : string) :
  re.match_here [re.Star re.Digit; re.Dollar] bol s <> None <->
  exists d e, s = (d ++ e)%string
              /\ Str.forallb Str.isdigit d = true /\ re.at_end e = true.
Proof.
  cbn [re.match_here]. rewrite star_iff. split.
  - intros (d & e & -> & Hd & He). exists d, e. repeat split; auto.
    destruct (re.at_end e); congruence.
  - intros (d & e & -> & Hd & He). exists d, e. repeat split; auto.
    rewrite He. discriminate.
Qed.

(** The tail [\d*] of the pattern of [get_wkt]. *)
Lemma match_digits_open (bol : bool) (s : string) :
  re.match_here [re.Star re.Digit] bol s <> None.
Proof.
  cbn [re.match_here]. apply star_of_k. discriminate.
Qed.

Lemma wkt_id_regex_shape (s : string) :
  re.is_match WKT_ID_REGEX s = true <-> wkt_id_shape s.
Proof.
  rewrite is_match_iff. unfold WKT_ID_REGEX, wkt_id_shape.
  change (re.match_here (re.Caret :: ?p) true s)
    with (re.match_here p true s).
  change (re.match_here (re.Star re.Dot :: ?p) true s)
    with (re.star (re.cmatch re.Dot) (re.match_here p) true s).
  rewrite star_iff. split.
  - intros (p & r & -> & Hp & Hk).
    apply match_lit in Hk as (r1 & -> & Hk).
    change (re.match_here (re.Star re.Digit :: ?q) false r1)
      with (re.star (re.cmatch re.Digit) (re.match_here q) false r1) in Hk.
    apply star_sound in Hk as (d1 & r2 & -> & Hd1 & Hk).
    apply match_lit in Hk as (r3 & -> & Hk).
    apply match_digits_end in Hk as (d2 & e & -> & Hd2 & He).
    now exists p, d1, d2, e.
  - intros (p & d1 & d2 & e & -> & Hp & Hd1 & Hd2 & He).
    exists p, (String Str.colon (d1 ++ String Str.colon (d2 ++ e))).
    repeat split; auto.
    apply match_lit. eexists; split; [reflexivity|].
    change (re.match_here (re.Star re.Digit :: ?q) false ?r)
      with (re.star (re.cmatch re.Digit) (re.match_here q) false r).
    apply star_complete; [exact Hd1|].
    apply match_lit. eexists; split; [reflexivity|].
    apply match_digits_end. now exists d2, e.
Qed.

(** What the pattern of [get_wkt] accepts: as above up to the second
    colon, then anything. *)
Lemma wkt_id_regex_open_shape (s : string) :
  re.is_match WKT_ID_REGEX_OPEN s = true <->
  exists p d1 e : string,
    s = (p ++ String Str.colon (d1 ++ String Str.colon e))%string
    /\ Str.forallb (re.cmatch re.Dot) p = true
    /\ Str.forallb Str.isdigit d1 = true.
Proof.
  rewrite is_match_iff. unfold WKT_ID_REGEX_OPEN.
  change (re.match_here (re.Caret :: ?p) true s)
    with (re.match_here p true s).
  change (re.match_here (re.Star re.Dot :: ?p) true s)
    with (re.star (re.cmatch re.Dot) (re.match_here p) true s).
  rewrite star_iff. split.
  - intros (p & r & -> & Hp & Hk).
    apply match_lit in Hk as (r1 & -> & Hk).
    change (re.match_here (re.Star re.Digit :: ?q) false r1)
      with (re.star (re.cmatch re.Digit) (re.match_here q) false r1) in Hk.
    apply star_sound in Hk as (d1 & r2 & -> & Hd1 & Hk).
    apply match_lit in Hk as (r3 & -> & _).
    now exists p, d1, r3.
  - intros (p & d1 & e & -> & Hp & Hd1).
    exists p, (String Str.colon (d1 ++ String Str.colon e)).
    repeat split; auto.
    apply match_lit. eexists; split; [reflexivity|].
    change (re.match_here (re.Star re.Digit :: ?q) false ?r)
      with (re.star (re.cmatch re.Digit) (re.match_here q) false r).
    apply star_complete; [exact Hd1|].
    apply match_lit. eexists; split; [reflexivity|].
    apply match_digits_open.
Qed.

Lemma wkt_id_shape_open (s : string) :
  wkt_id_shape s -> re.is_match WKT_ID_REGEX_OPEN s = true.
Proof.
  intros (p & d1 & d2 & e & -> & Hp & Hd1 & _).
  apply wkt_id_regex_open_shape. now exists p, d1, (d2 ++ e)%string.
Qed.





Lemma regex_param_accepts (p : re.pattern) (s : string) :
  regex_param p s = Return s <-> re.is_match p s = true.
Proof.
  unfold regex_param. destruct (re.is_match p s); split; congruence.
Qed.




(* ================================================================= *)
(** * The claims *)

(** ** C3: the syntax of [wkt_id] *)




(** ** Pagination *)

Lemma rows_all (db : table) : QuerySet.rows db QuerySet.all = db.
Proof.
  unfold QuerySet.rows. cbn [QuerySet._limit QuerySet._offset QuerySet.all].
  cbn [QuerySet.apply_limit QuerySet.apply_offset]. apply filter_true.
Qed.

Lemma rows_page_all (db : table) (l o : Z) :
  QuerySet.rows db (QuerySet.offset o (QuerySet.limit l QuerySet.all))
  = firstn (Z.to_nat l) (skipn (Z.to_nat o) db).
Proof.
  unfold QuerySet.rows. cbn. now rewrite filter_true.
Qed.

Lemma rows_page_filter (db : table) (f : WKT_model.t -> bool) (l o : Z) :
  QuerySet.rows db
    (QuerySet.offset o (QuerySet.limit l (QuerySet.filter f QuerySet.all)))
  = firstn (Z.to_nat l) (skipn (Z.to_nat o) (List.filter f db)).
Proof.
  unfold QuerySet.rows. cbn. do 2 f_equal. apply filter_ext.
  intros r. apply andb_true_r.
Qed.

Lemma limit_accepted (limit : option Z) (l : Z) :
  query_param LIMIT_QUERY limit = Return l -> 0 <= l <= 100.
Proof.
  destruct limit as [z|]; cbn [query_param].
  - unfold in_bounds. cbn [gt le LIMIT_QUERY].
    destruct (-1 <? z) eqn:H1; destruct (z <=? 100) eqn:H2;
      cbn [andb]; try discriminate.
    intros [= <-]. apply Z.ltb_lt in H1. apply Z.leb_le in H2. lia.
  - cbn. intros [= <-]. lia.
Qed.

Lemma offset_accepted (offset : option Z) (o : Z) :
  query_param OFFSET_QUERY offset = Return o -> 0 <= o.
Proof.
  destruct offset as [z|]; cbn [query_param].
  - unfold in_bounds. cbn [gt le OFFSET_QUERY].
    destruct (-1 <? z) eqn:H1; cbn [andb]; try discriminate.
    intros [= <-]. apply Z.ltb_lt in H1. lia.
  - cbn. intros [= <-]. lia.
Qed.





(** ** C5: the pagination contract *)



(** ** C1: the count of a solar body is the count of the page *)





(** ** C4: GET /versions/{v} and the empty page *)


(** C4 at the failing input: the sample table has two records of version
    2015, the request for version 2015 with the default limit and offset 2
    is answered 404 ["2015 not found"], and without offset it succeeds. *)
Theorem get_version_404_past_last_record :
  List.length (List.filter (fun r => WKT_model.version r =? 2015) sample_db)
  = 2%nat
  /\ get_version sample_db 2015 None (Some 2)
     = Raise (HTTPException 404 "2015 not found")
  /\ get_version sample_db 2015 None None = Return sample_db.
Proof. repeat split; reflexivity. Qed.

(** ** C2: GET /versions/{v}/{wkt_id} *)

Lemma version_path_accepted (v : Z) :
  2014 < v -> path_param VERSION_PATH v = Return v.
Proof.
  intros Hv. unfold path_param, in_bounds. cbn [gt le VERSION_PATH].
  apply Z.ltb_lt in Hv. now rewrite Hv.
Qed.

(** C2: for a version above 2014 and an id that passes the validation, the
    record is looked up by id first: without a record of that id the answer
    is 404; with a record of another version it is 400; with a record of
    that version it is the [wkt] of the record. *)
Theorem get_wkt_version_contract (db : table) (v : Z) (wkt_id : string) :
  2014 < v ->
  regex_param WKT_ID_REGEX wkt_id = Return wkt_id ->
  match List.find (fun r => String.eqb (WKT_model.id r) wkt_id) db with
  | None =>
      exists detail,
        get_wkt_version query_search.get_wkt_obj db v wkt_id
        = Raise (HTTPException 404 detail)
  | Some r =>
      (WKT_model.version r <> v ->
       exists detail,
         get_wkt_version query_search.get_wkt_obj db v wkt_id
         = Raise (HTTPException 400 detail))
      /\ (WKT_model.version r = v ->
          get_wkt_version query_search.get_wkt_obj db v wkt_id
          = Return (WKT_model.wkt r))
  end.
Proof.
  intros Hv Hid. unfold get_wkt_version.
  rewrite (version_path_accepted v Hv), Hid. cbn [bind].
  unfold query_search.get_wkt_obj.
  destruct (List.find _ db) as [r|]; cbn [bind].
  - destruct (Z.eqb_spec (WKT_model.version r) v) as [He|Hne]; cbn [negb].
    + split; [congruence | reflexivity].
    + split; [eauto | congruence].
  - eauto.
Qed.

(** C2 on the sample table: the id of the Moon record under version 2016. *)
Lemma get_wkt_version_contract_witness :
  exists detail,
    get_wkt_version query_search.get_wkt_obj sample_db 2016 "IAU:2015:30100"
    = Raise (HTTPException 400 detail).
Proof.
  refine (proj1 (get_wkt_version_contract sample_db 2016 "IAU:2015:30100"
                   _ eq_refl) _).
  - reflexivity.
  - vm_compute. discriminate.
Defined.

(** ** C6: the case of the letters of a solar body *)


Lemma solar_body_is_lower (b1 b2 : string) (r : WKT_model.t) :
  Str.lower b1 = Str.lower b2 -> solar_body_is b1 r = solar_body_is b2 r.
Proof. unfold solar_body_is. now intros ->. Qed.




(** ** Grouped and ordered values *)

Section ValuesLemmas.

Context {K : Type}.
Variable eqb : K -> K -> bool.
Variable leb : K -> K -> bool.
Variable field : WKT_model.t -> K.

Hypothesis eqb_eq : forall x y, eqb x y = true <-> x = y.
Hypothesis leb_total : forall x y, leb x y = true \/ leb y x = true.

Lemma group_by_seen (r : WKT_model.t) (rs : list WKT_model.t) :
  existsb (fun r' => eqb (field r) (field r')) rs = true
  <-> In (field r) (map field rs).
Proof.
  rewrite existsb_exists, in_map_iff. split.
  - intros (r' & Hin & He). apply eqb_eq in He. eauto.
  - intros (r' & He & Hin). exists r'. split; [exact Hin|].
    now apply eqb_eq.
Qed.

Lemma group_by_in (rs : list WKT_model.t) (k : K) :
  In k (map field (QuerySet.group_by eqb field rs)) <-> In k (map field rs).
Proof.
  induction rs as [|r rs IH]; [reflexivity|].
  cbn [QuerySet.group_by].
  destruct (existsb _ rs) eqn:He.
  - rewrite IH. cbn [map In]. apply group_by_seen in He.
    split; [auto | intros [<- | H]; auto].
  - cbn [map In]. now rewrite IH.
Qed.

Lemma group_by_nodup (rs : list WKT_model.t) :
  NoDup (map field (QuerySet.group_by eqb field rs)).
Proof.
  induction rs as [|r rs IH]; [constructor|].
  cbn [QuerySet.group_by].
  destruct (existsb _ rs) eqn:He; [exact IH|].
  cbn [map]. constructor; [|exact IH].
  rewrite group_by_in, <- group_by_seen. congruence.
Qed.

(** GROUP BY keeps as many rows as the column has distinct values. *)
Lemma group_by_distinct (dec : forall x y : K, {x = y} + {x <> y})
      (rs : list WKT_model.t) :
  map field (QuerySet.group_by eqb field rs) = nodup dec (map field rs).
Proof.
  induction rs as [|r rs IH]; [reflexivity|].
  cbn [QuerySet.group_by map nodup].
  destruct (in_dec dec (field r) (map field rs)) as [Hin|Hnin].
  - apply group_by_seen in Hin. now rewrite Hin.
  - destruct (existsb _ rs) eqn:He.
    + apply group_by_seen in He. contradiction.
    + cbn [map]. now rewrite IH.
Qed.

Lemma insert_perm (r : WKT_model.t) (rs : list WKT_model.t) :
  Permutation (QuerySet.insert leb field r rs) (r :: rs).
Proof.
  induction rs as [|r' rs IH]; cbn [QuerySet.insert]; [reflexivity|].
  destruct (leb (field r) (field r')); [reflexivity|].
  rewrite IH. apply perm_swap.
Qed.

Lemma order_by_perm (rs : list WKT_model.t) :
  Permutation (QuerySet.order_by leb field rs) rs.
Proof.
  induction rs as [|r rs IH]; cbn [QuerySet.order_by]; [reflexivity|].
  rewrite insert_perm. now constructor.
Qed.

Lemma insert_hd (x : K) (r : WKT_model.t) (rs : list WKT_model.t) :
  (QuerySet.ascending leb) x (field r) ->
  HdRel (QuerySet.ascending leb) x (map field rs) ->
  HdRel (QuerySet.ascending leb) x (map field (QuerySet.insert leb field r rs)).
Proof.
  intros Hx Hrs. destruct rs as [|r' rs]; cbn [QuerySet.insert map].
  - now constructor.
  - destruct (leb (field r) (field r')); cbn [map]; constructor; auto.
    now inversion Hrs.
Qed.

Lemma insert_sorted (r : WKT_model.t) (rs : list WKT_model.t) :
  Sorted (QuerySet.ascending leb) (map field rs) ->
  Sorted (QuerySet.ascending leb) (map field (QuerySet.insert leb field r rs)).
Proof.
  induction rs as [|r' rs IH]; cbn [QuerySet.insert map]; intros Hs.
  - repeat constructor.
  - destruct (leb (field r) (field r')) eqn:Hle; cbn [map].
    + constructor; [exact Hs|]. now constructor.
    + apply Sorted_inv in Hs as [Hs Hhd].
      constructor; [now apply IH|].
      apply insert_hd; [|exact Hhd].
      destruct (leb_total (field r) (field r')); [congruence | assumption].
Qed.

Lemma order_by_sorted (rs : list WKT_model.t) :
  Sorted (QuerySet.ascending leb) (map field (QuerySet.order_by leb field rs)).
Proof.
  induction rs as [|r rs IH]; cbn [QuerySet.order_by].
  - constructor.
  - now apply insert_sorted.
Qed.

Lemma column_perm (db : table) :
  Permutation (QuerySet.column eqb leb field db) (map field (QuerySet.group_by eqb field db)).
Proof.
  unfold QuerySet.column, QuerySet.values. rewrite rows_all.
  apply Permutation_map, order_by_perm.
Qed.

Lemma column_sorted (db : table) : Sorted (QuerySet.ascending leb) (QuerySet.column eqb leb field db).
Proof. apply order_by_sorted. Qed.

Lemma column_nodup (db : table) : NoDup (QuerySet.column eqb leb field db).
Proof.
  apply (Permutation_NoDup (Permutation_sym (column_perm db))).
  apply group_by_nodup.
Qed.

Lemma column_in (db : table) (k : K) :
  In k (QuerySet.column eqb leb field db) <-> exists r, In r db /\ field r = k.
Proof.
  transitivity (In k (map field db)).
  - rewrite <- (group_by_in db k). split.
    + apply Permutation_in, column_perm.
    + apply Permutation_in, Permutation_sym, column_perm.
  - rewrite in_map_iff. split; intros (r & H1 & H2); eauto.
Qed.

Lemma column_length (dec : forall x y : K, {x = y} + {x <> y})
      (db : table) :
  List.length (QuerySet.column eqb leb field db) = List.length (nodup dec (map field db)).
Proof.
  rewrite (Permutation_length (column_perm db)).
  now rewrite (group_by_distinct dec).
Qed.

End ValuesLemmas.

Lemma collect_app {K : Type} (objs acc : list K) :
  fold_left (fun acc obj => acc ++ [obj]) objs acc = acc ++ objs.
Proof.
  revert acc. induction objs as [|x objs IH]; intros acc; cbn [fold_left].
  - now rewrite app_nil_r.
  - rewrite IH, <- app_assoc. reflexivity.
Qed.

Lemma collect_all {K : Type} (objs : list K) : collect objs = objs.
Proof. apply collect_app. Qed.

(** An ordered list without duplicates is strictly ordered. *)
Lemma sorted_nodup_strict {A : Type} (R S : A -> A -> Prop) (l : list A) :
  (forall a b, R a b -> a <> b -> S a b) ->
  Sorted R l -> NoDup l -> Sorted S l.
Proof.
  intros HRS Hs. induction Hs as [|a l Hs IH Hhd]; intros Hnd.
  - constructor.
  - inversion Hnd as [|? ? Hnin Hnd']; subst.
    constructor; [now apply IH|].
    destruct Hhd as [|b l Hab]; constructor.
    apply HRS; [exact Hab|]. intros ->. apply Hnin. now left.
Qed.

Lemma string_leb_ltb (a b : string) :
  String.leb a b = true -> a <> b -> String.ltb a b = true.
Proof.
  unfold String.leb, String.ltb. intros Hle Hne.
  destruct (String.compare a b) eqn:Hc; try congruence.
  now apply String.compare_eq_iff in Hc.
Qed.

Lemma get_versions_column (db : table) :
  get_versions db = Return (QuerySet.column Z.eqb Z.leb WKT_model.version db).
Proof. unfold get_versions. now rewrite collect_all. Qed.

Lemma get_solar_bodies_column (db : table) :
  get_solar_bodies db
  = Return (QuerySet.column String.eqb String.leb WKT_model.solar_body db).
Proof. unfold get_solar_bodies. now rewrite collect_all. Qed.

Lemma z_leb_total (x y : Z) : (x <=? y) = true \/ (y <=? x) = true.
Proof. rewrite !Z.leb_le. lia. Qed.

(** ** C7: the lists of versions and of solar bodies *)

(** C7: whatever the table, GET /versions returns the versions of its
    records, each once, in strictly ascending order, and GET /solar_bodies
    returns the solar bodies of its records, each once, in strictly
    ascending order of strings; both lists are computed from the records
    of the table. *)
Theorem versions_and_solar_bodies_sorted_distinct (db : table) :
  exists (vs : list Z) (bs : list string),
    get_versions db = Return vs
    /\ get_solar_bodies db = Return bs
    /\ Sorted Z.lt vs
    /\ NoDup vs
    /\ (forall v, In v vs <-> exists r, In r db /\ WKT_model.version r = v)
    /\ Sorted (fun a b => String.ltb a b = true) bs
    /\ NoDup bs
    /\ (forall b, In b bs <->
                  exists r, In r db /\ WKT_model.solar_body r = b).
Proof.
  exists (QuerySet.column Z.eqb Z.leb WKT_model.version db),
         (QuerySet.column String.eqb String.leb WKT_model.solar_body db).
  split; [apply get_versions_column|].
  split; [apply get_solar_bodies_column|].
  assert (Hv := column_nodup Z.eqb Z.leb WKT_model.version Z.eqb_eq db).
  assert (Hb := column_nodup String.eqb String.leb WKT_model.solar_body
                  String.eqb_eq db).
  repeat apply conj.
  - apply (sorted_nodup_strict (QuerySet.ascending Z.leb)); [| |exact Hv].
    + cbn. intros a b Hab Hne. apply Z.leb_le in Hab. lia.
    + apply column_sorted. exact z_leb_total.
  - exact Hv.
  - apply column_in. exact Z.eqb_eq.
  - apply (sorted_nodup_strict (QuerySet.ascending String.leb));
      [| |exact Hb].
    + cbn. apply string_leb_ltb.
    + apply column_sorted. exact String.leb_total.
  - exact Hb.
  - apply column_in. exact String.eqb_eq.
Qed.

(** ** C8: the count of the solar bodies *)

(** C8: whatever the table, GET /solar_bodies/count returns the length of
    the list GET /solar_bodies returns, which is the number of distinct
    solar bodies of the records. *)
Theorem solar_bodies_count_is_length (db : table) :
  exists bs : list string,
    get_solar_bodies db = Return bs
    /\ solar_bodies_count db = Return (Z.of_nat (List.length bs))
    /\ List.length bs
       = List.length (nodup String.string_dec
                        (map WKT_model.solar_body db)).
Proof.
  exists (QuerySet.column String.eqb String.leb WKT_model.solar_body db).
  split; [apply get_solar_bodies_column|]. split.
  - unfold solar_bodies_count. now rewrite collect_all.
  - apply column_length. exact String.eqb_eq.
Qed.

(** ** The start-up routine *)

Lemma star_take_while (cm : ascii -> bool)
      (k : bool -> string -> option string) (bol : bool) (s : string) :
  (forall b r, k b r = Some EmptyString) ->
  re.star cm k bol s = Some (Str.take_while cm s).
Proof.
  intros Hk. revert bol.
  induction s as [|a s IH]; intros bol; cbn [re.star Str.take_while].
  - apply Hk.
  - destruct (cm a); [|apply Hk]. now rewrite IH.
Qed.

(** The match of the pattern of the solar body: none on a bad datum, the
    first token otherwise. *)
Lemma solar_body_match (d : string) :
  re.match_ SOLAR_BODY_REGEX d
  = if bad_datum d then None else Some (Str.first_token d).
Proof.
  destruct d as [|a d]; [reflexivity|].
  unfold re.match_, SOLAR_BODY_REGEX. cbn [re.match_here re.cmatch bad_datum].
  unfold Str.first_token. cbn [Str.drop_while Str.take_while].
  destruct (Str.isspace a) eqn:Ha; cbn [negb]; [reflexivity|].
  rewrite (star_take_while (re.cmatch re.NotSpace)); [|reflexivity].
  cbn [Str.take_while option_map]. now rewrite Ha.
Qed.

Section StartupLemmas.

Variable iau : Type.
Variable int : iau -> result Z.
Variable format : iau -> string.

Lemma wkt_data_bad_datum (record : WktDatabase.record iau) :
  bad_datum (WktDatabase.datum record) = true ->
  exists e, wkt_data iau int format record = Raise e.
Proof.
  intros Hbad. unfold wkt_data.
  destruct (int (WktDatabase.iau_version record)); cbn [bind]; [|eauto].
  destruct (int (WktDatabase.iau_code record)); cbn [bind]; [|eauto].
  rewrite solar_body_match, Hbad. cbn. eauto.
Qed.

Lemma wkt_data_attribute_error (record : WktDatabase.record iau) (v c : Z) :
  int (WktDatabase.iau_version record) = Return v ->
  int (WktDatabase.iau_code record) = Return c ->
  bad_datum (WktDatabase.datum record) = true ->
  wkt_data iau int format record = Raise AttributeError.
Proof.
  intros Hv Hc Hbad. unfold wkt_data. rewrite Hv, Hc. cbn [bind].
  now rewrite solar_body_match, Hbad.
Qed.

Lemma load_bad_datum (index : list (WktDatabase.record iau)) :
  Exists (fun record => bad_datum (WktDatabase.datum record) = true) index ->
  forall db, exists e, fst (load iau int format index db) = Raise e.
Proof.
  induction index as [|record index IH]; intros Hex db.
  - inversion Hex.
  - cbn [load].
    destruct (wkt_data iau int format record) as [row|e] eqn:Hrow;
      [|cbn; eauto].
    assert (Hrest : Exists
              (fun record => bad_datum (WktDatabase.datum record) = true)
              index).
    { inversion Hex as [? ? Hbad | ? ? Hrest]; subst; [|exact Hrest].
      apply wkt_data_bad_datum in Hbad as [e He]. congruence. }
    unfold create.
    destruct (existsb _ db); [cbn; eauto|].
    now apply IH.
Qed.

Lemma load_good_datum (index : list (WktDatabase.record iau)) (db : table) :
  fst (load iau int format index db) = Return tt ->
  Forall (fun record => bad_datum (WktDatabase.datum record) = false) index.
Proof.
  intros Hok. apply Forall_forall. intros record Hin.
  destruct (bad_datum (WktDatabase.datum record)) eqn:Hbad; [|reflexivity].
  destruct (load_bad_datum index) with (db := db) as [e He].
  - apply Exists_exists. eauto.
  - congruence.
Qed.

(** The rendering of an entry agrees with its integer value: [{x}] is the
    decimal numeral of [int(x)]. *)
Hypothesis format_int :
  forall x z, int x = Return z -> format x = Str.of_int z.




End StartupLemmas.




(** ** C9: the records the loader inserts *)



(** ** C10: a datum the pattern of the solar body cannot match *)

(** C10: when the ingestion runs, an entry whose datum is empty or begins
    with a white-space character makes the start-up routine raise; so the
    routine succeeds only on a dataset where every datum begins with a
    character that is no white space; and on such an entry, once its
    version and code are read, the exception is the [AttributeError] of
    [None.group(0)]. *)
Theorem startup_fails_on_bad_datum
        (iau : Type) (int : iau -> result Z) (format : iau -> string)
        (db_url : string) (exists_ : string -> bool)
        (index : list (WktDatabase.record iau)) (db : table) :
  database_absent db_url exists_ = true ->
  (Exists (fun record => bad_datum (WktDatabase.datum record) = true) index ->
   exists e,
     fst (startup_event iau int format db_url exists_ index db) = Raise e)
  /\ (fst (startup_event iau int format db_url exists_ index db) = Return tt ->
      Forall (fun record => bad_datum (WktDatabase.datum record) = false)
             index)
  /\ (forall record v c,
        int (WktDatabase.iau_version record) = Return v ->
        int (WktDatabase.iau_code record) = Return c ->
        bad_datum (WktDatabase.datum record) = true ->
        wkt_data iau int format record = Raise AttributeError).
Proof.
  intros Habsent. unfold startup_event. rewrite Habsent. repeat apply conj.
  - intros Hex. now apply load_bad_datum.
  - apply load_good_datum.
  - apply wkt_data_attribute_error.
Qed.

(** C10 on a dataset whose last entry has a datum that begins with a
    space. *)
Lemma startup_fails_on_bad_datum_witness :
  exists e,
    fst (startup_event Z int_of_int Str.of_int "sqlite://db.sqlite3"
           nothing_on_disk (sample_index ++ [blank_entry]) [])
    = Raise e.
Proof.
  refine (proj1 (startup_fails_on_bad_datum Z int_of_int Str.of_int
                   "sqlite://db.sqlite3" nothing_on_disk
                   (sample_index ++ [blank_entry]) [] eq_refl) _).
  do 2 apply Exists_cons_tl. apply Exists_cons_hd. reflexivity.
Defined.

(** ** The model on concrete inputs *)

Example lower_mars : Str.lower "MaRS" = "mars".
Proof. reflexivity. Qed.

Example match_backtracks :
  re.match_ WKT_ID_REGEX "IAU:2015:1000" = Some "IAU:2015:1000".
Proof. reflexivity. Qed.

Example open_pattern_prefix :
  re.match_ WKT_ID_REGEX_OPEN "IAU:2015:1000 and more" = Some "IAU:2015:1000".
Proof. reflexivity. Qed.

Example solar_body_of_datum :
  re.match_ SOLAR_BODY_REGEX "Mars (2015) - Sphere" = Some "Mars".
Proof. reflexivity. Qed.

Example startup_loads_sample :
  startup_event Z int_of_int Str.of_int "sqlite://db.sqlite3"
    nothing_on_disk sample_index []
  = (Return tt, sample_db).
Proof. reflexivity. Qed.

Example startup_stops_at_blank :
  startup_event Z int_of_int Str.of_int "sqlite://db.sqlite3"
    nothing_on_disk (mars_entry :: blank_entry :: [moon_entry]) []
  = (Raise AttributeError, [mars_2015]).
Proof. reflexivity. Qed.

Example startup_skips_existing :
  startup_event Z int_of_int Str.of_int "sqlite://db.sqlite3"
    (fun file => String.eqb file "db.sqlite3") sample_index [moon_2015]
  = (Return tt, [moon_2015]).
Proof. reflexivity. Qed.

Example versions_of_sample :
  get_versions (sample_db ++ sample_db) = Return [2015].
Proof. reflexivity. Qed.

Example solar_bodies_of_sample :
  get_solar_bodies (moon_2015 :: sample_db) = Return ["Mars"; "Moon"].
Proof. reflexivity. Qed.

(* ================================================================= *)
(** * Further properties of the handlers *)

(** ** Pages of GET /wkts *)

Lemma get_wkts_inv (db : table) (limit offset : option Z)
      (page : list WKT_model.t) :
  get_wkts db limit offset = Return page ->
  exists l o,
    query_param LIMIT_QUERY limit = Return l
    /\ query_param OFFSET_QUERY offset = Return o
    /\ page = firstn (Z.to_nat l) (skipn (Z.to_nat o) db).
Proof.
  unfold get_wkts.
  destruct (query_param LIMIT_QUERY limit) as [l|e]; cbn [bind];
    [|discriminate].
  destruct (query_param OFFSET_QUERY offset) as [o|e]; cbn [bind];
    [|discriminate].
  rewrite rows_page_all. intros [= <-]. now exists l, o.
Qed.

Lemma query_param_given (p : IntParam) (z v : Z) :
  query_param p (Some z) = Return v -> v = z.
Proof.
  cbn [query_param]. destruct (in_bounds p z); [|discriminate].
  now intros [= <-].
Qed.

Lemma firstn_adjacent {A : Type} (a b : nat) (xs : list A) :
  firstn a xs ++ firstn b (skipn a xs) = firstn (a + b) xs.
Proof.
  revert xs. induction a as [|a IH]; intros xs; [reflexivity|].
  destruct xs as [|x xs]; cbn.
  - now rewrite firstn_nil.
  - now rewrite IH.
Qed.

(** Two pages of GET /wkts that follow each other, the second one starting
    where the first one stops, hold together the rows of the window of
    both: no row is lost between them and none comes twice. *)
Theorem get_wkts_pages_adjacent
        (db : table) (l1 l2 o : Z) (p1 p2 : list WKT_model.t) :
  get_wkts db (Some l1) (Some o) = Return p1 ->
  get_wkts db (Some l2) (Some (o + l1)) = Return p2 ->
  p1 ++ p2 = firstn (Z.to_nat (l1 + l2)) (skipn (Z.to_nat o) db).
Proof.
  intros H1 H2.
  apply get_wkts_inv in H1 as (l1' & o1 & Hl1 & Ho1 & ->).
  apply get_wkts_inv in H2 as (l2' & o2 & Hl2 & Ho2 & ->).
  pose proof (limit_accepted _ _ Hl1). pose proof (limit_accepted _ _ Hl2).
  pose proof (offset_accepted _ _ Ho1).
  apply query_param_given in Hl1, Hl2, Ho1, Ho2. subst.
  replace (Z.to_nat (o + l1)) with (Z.to_nat l1 + Z.to_nat o)%nat by lia.
  rewrite <- skipn_skipn, firstn_adjacent. f_equal. lia.
Qed.

(** Two pages of one row on the sample table. *)
Lemma get_wkts_pages_adjacent_witness :
  [mars_2015] ++ [moon_2015]
  = firstn (Z.to_nat (1 + 1)) (skipn (Z.to_nat 0) sample_db).
Proof.
  apply (get_wkts_pages_adjacent sample_db 1 1 0 [mars_2015] [moon_2015]);
    reflexivity.
Defined.



(** ** A version and its count *)

Lemma version_count_value (db : table) (v : Z) :
  2014 < v ->
  version_count db v
  = Return (Z.of_nat (List.length
                        (List.filter (fun r => WKT_model.version r =? v) db))).
Proof.
  intros Hv. unfold version_count. rewrite (version_path_accepted v Hv).
  cbn [bind]. unfold QuerySet.count, QuerySet.rows. cbn.
  do 3 f_equal. apply filter_ext. intros r. apply andb_true_r.
Qed.





(** ** A solar body and its count *)



(** ** The three routes that look a record up by its id *)

Lemma bind_return_inv {A B : Type} (m : result A) (k : A -> result B)
      (b : B) :
  bind m k = Return b -> exists a, m = Return a /\ k a = Return b.
Proof. destruct m as [a|e]; cbn; [eauto | discriminate]. Qed.

Lemma regex_param_return (p : re.pattern) (s s' : string) :
  regex_param p s = Return s' -> s' = s /\ re.is_match p s = true.
Proof.
  unfold regex_param. destruct (re.is_match p s); [|discriminate].
  now intros [= <-].
Qed.

Lemma anchored_then_open (s : string) :
  re.is_match WKT_ID_REGEX s = true ->
  regex_param WKT_ID_REGEX_OPEN s = Return s.
Proof.
  intros H. apply regex_param_accepts, wkt_id_shape_open.
  now apply wkt_id_regex_shape.
Qed.

(** Whatever the lookup is, when GET /versions/{v}/{wkt_id} or GET
    /solar_bodies/{b}/{wkt_id} returns a string, GET /wkts/{wkt_id} returns
    the same string for the same id: the two guarded routes never accept an
    id the plain route refuses, and never return another text. *)
Theorem get_wkt_agrees_with_guarded_routes
        (get_wkt_obj : table -> string -> result WKT_model.t)
        (db : table) (v : Z) (b wkt_id w : string) :
  get_wkt_version get_wkt_obj db v wkt_id = Return w
  \/ get_wkt_body get_wkt_obj db b wkt_id = Return w ->
  get_wkt get_wkt_obj db wkt_id = Return w.
Proof.
  unfold get_wkt. intros [H | H].
  - unfold get_wkt_version in H.
    apply bind_return_inv in H as (v' & _ & H).
    apply bind_return_inv in H as (i & Hi & H).
    apply regex_param_return in Hi as [-> Hm].
    apply bind_return_inv in H as (r & Hr & H).
    rewrite (anchored_then_open _ Hm). cbn [bind]. rewrite Hr. cbn [bind].
    destruct (negb _); [discriminate | exact H].
  - unfold get_wkt_body in H.
    apply bind_return_inv in H as (i & Hi & H).
    apply regex_param_return in Hi as [-> Hm].
    apply bind_return_inv in H as (r & Hr & H).
    rewrite (anchored_then_open _ Hm). cbn [bind]. rewrite Hr. cbn [bind].
    destruct (negb _); [discriminate | exact H].
Qed.

(** The Moon record of the sample table, by its version. *)
Lemma get_wkt_agrees_with_guarded_routes_witness :
  get_wkt query_search.get_wkt_obj sample_db "IAU:2015:30100"
  = Return "GEOGCRS[moon]".
Proof.
  apply (get_wkt_agrees_with_guarded_routes query_search.get_wkt_obj
           sample_db 2015 "" "IAU:2015:30100" "GEOGCRS[moon]").
  left. reflexivity.
Defined.

(** For an id that passes the anchored pattern and a version above 2014,
    the two guarded routes follow GET /wkts/{wkt_id}: when it fails they
    fail with the same exception, and when it returns a string they return
    that string or answer 400; a failed lookup never becomes a success and
    a record that is found never becomes a 404 of their own. *)
Theorem guarded_routes_follow_get_wkt
        (get_wkt_obj : table -> string -> result WKT_model.t)
        (db : table) (v : Z) (b wkt_id : string) :
  2014 < v ->
  regex_param WKT_ID_REGEX wkt_id = Return wkt_id ->
  match get_wkt get_wkt_obj db wkt_id with
  | Raise e =>
      get_wkt_version get_wkt_obj db v wkt_id = Raise e
      /\ get_wkt_body get_wkt_obj db b wkt_id = Raise e
  | Return w =>
      (get_wkt_version get_wkt_obj db v wkt_id = Return w
       \/ get_wkt_version get_wkt_obj db v wkt_id
          = Raise (HTTPException 400
                     ("Wrong version " ++ Str.of_int v
                        ++ " for this WKT " ++ wkt_id)%string))
      /\ (get_wkt_body get_wkt_obj db b wkt_id = Return w
          \/ get_wkt_body get_wkt_obj db b wkt_id
             = Raise (HTTPException 400
                        (wkt_id ++ " not found for " ++ b)%string))
  end.
Proof.
  intros Hv Hid.
  assert (Hopen : regex_param WKT_ID_REGEX_OPEN wkt_id = Return wkt_id).
  { apply anchored_then_open. now apply regex_param_accepts. }
  unfold get_wkt, get_wkt_version, get_wkt_body.
  rewrite Hopen, Hid, (version_path_accepted v Hv). cbn [bind].
  destruct (get_wkt_obj db wkt_id) as [r|e]; cbn [bind]; [|split; reflexivity].
  split.
  - destruct (negb (WKT_model.version r =? v)); auto.
  - destruct (negb _); auto.
Qed.

(** The Moon record asked for under Mars: 400, the lookup having found
    it. *)
Lemma guarded_routes_follow_get_wkt_witness :
  get_wkt_body query_search.get_wkt_obj sample_db "Mars" "IAU:2015:30100"
  = Return "GEOGCRS[moon]"
  \/ get_wkt_body query_search.get_wkt_obj sample_db "Mars" "IAU:2015:30100"
     = Raise (HTTPException 400 "IAU:2015:30100 not found for Mars").
Proof.
  exact (proj2 (guarded_routes_follow_get_wkt query_search.get_wkt_obj
                  sample_db 2015 "Mars" "IAU:2015:30100" eq_refl eq_refl)).
Defined.

(** A version of 2014 or less never reaches a query: the three routes
    with a version in their path fail with the validation error whatever
    the table, the other parameters and the lookup are; so the 400 of a
    wrong version is only ever given for a version above 2014. *)
Theorem version_up_to_2014_rejected
        (get_wkt_obj : table -> string -> result WKT_model.t)
        (db : table) (v : Z) (limit offset : option Z) (wkt_id : string) :
  v <= 2014 ->
  get_version db v limit offset = Raise RequestValidationError
  /\ version_count db v = Raise RequestValidationError
  /\ get_wkt_version get_wkt_obj db v wkt_id = Raise RequestValidationError.
Proof.
  intros Hv.
  assert (H : path_param VERSION_PATH v = Raise RequestValidationError).
  { unfold path_param, in_bounds. cbn [gt le VERSION_PATH].
    destruct (2014 <? v) eqn:E; [apply Z.ltb_lt in E; lia | reflexivity]. }
  unfold get_version, version_count, get_wkt_version. now rewrite H.
Qed.

(** Version 2014 with an id of version 2015. *)
Lemma version_up_to_2014_rejected_witness :
  get_wkt_version query_search.get_wkt_obj sample_db 2014 "IAU:2015:30100"
  = Raise RequestValidationError.
Proof.
  refine (proj2 (proj2 (version_up_to_2014_rejected query_search.get_wkt_obj
                          sample_db 2014 None None "IAU:2015:30100" _))).
  vm_compute. discriminate.
Defined.

(** ** The listed versions and solar bodies against the filtered routes *)

Lemma filter_length_pos {A : Type} (f : A -> bool) (xs : list A) :
  (0 < List.length (List.filter f xs))%nat
  <-> exists x, In x xs /\ f x = true.
Proof.
  split.
  - destruct (List.filter f xs) as [|x ys] eqn:E; cbn; [lia|].
    intros _. exists x. apply filter_In. rewrite E. now left.
  - intros (x & Hin & Hf).
    assert (H : In x (List.filter f xs)) by now apply filter_In.
    destruct (List.filter f xs); [contradiction | cbn; lia].
Qed.

(** A version above 2014 is in the list of GET /versions exactly when its
    count, by GET /versions/{v}/count, is positive. *)
Theorem version_listed_iff_counted
        (db : table) (v : Z) (vs : list Z) (n : Z) :
  2014 < v ->
  get_versions db = Return vs ->
  version_count db v = Return n ->
  In v vs <-> 0 < n.
Proof.
  intros Hv Hvs Hn.
  rewrite get_versions_column in Hvs. injection Hvs as <-.
  rewrite (version_count_value db v Hv) in Hn. injection Hn as <-.
  rewrite (column_in Z.eqb Z.leb WKT_model.version Z.eqb_eq).
  transitivity
    (Nat.lt 0 (List.length
                 (List.filter (fun r => WKT_model.version r =? v) db)));
    [|lia].
  rewrite filter_length_pos. split.
  - intros (r & Hin & He). exists r. split; [exact Hin|]. now apply Z.eqb_eq.
  - intros (r & Hin & He). exists r. split; [exact Hin|]. now apply Z.eqb_eq.
Qed.

(** Version 2015 of the sample table is listed and counts two records. *)
Lemma version_listed_iff_counted_witness : In 2015 [2015] <-> 0 < 2.
Proof.
  apply (version_listed_iff_counted sample_db 2015 [2015] 2); reflexivity.
Defined.

Section CountsAddUp.

Context {K : Type}.
Variable eqb : K -> K -> bool.
Variable key : WKT_model.t -> K.
Hypothesis eqb_eq : forall x y, eqb x y = true <-> x = y.

Lemma sum_once (x : K) (ks : list K) :
  NoDup ks -> In x ks ->
  fold_right Z.add 0 (map (fun k => if eqb x k then 1 else 0) ks) = 1.
Proof.
  induction 1 as [|k ks Hnin Hnd IH]; intros Hin; [contradiction|].
  cbn [map fold_right]. destruct (eqb x k) eqn:E.
  - apply eqb_eq in E. subst k.
    assert (Hz : fold_right Z.add 0
                   (map (fun k => if eqb x k then 1 else 0) ks) = 0).
    { clear IH Hin Hnd. induction ks as [|k ks IH]; [reflexivity|].
      cbn [map fold_right]. destruct (eqb x k) eqn:E.
      - apply eqb_eq in E. subst k. contradiction Hnin. now left.
      - rewrite IH; [reflexivity|]. intros H. apply Hnin. now right. }
    lia.
  - destruct Hin as [-> | Hin].
    + assert (eqb x x = true) by now apply eqb_eq. congruence.
    + rewrite (IH Hin). lia.
Qed.

Lemma sum_plus (f g : K -> Z) (ks : list K) :
  fold_right Z.add 0 (map (fun k => f k + g k) ks)
  = fold_right Z.add 0 (map f ks) + fold_right Z.add 0 (map g ks).
Proof.
  induction ks as [|k ks IH]; cbn [map fold_right]; [reflexivity|]. lia.
Qed.

(** The rows of each value of a column, counted over all the values, are
    the rows of the table. *)
Lemma counts_add_up (ks : list K) (db : table) :
  NoDup ks ->
  (forall r, In r db -> In (key r) ks) ->
  fold_right Z.add 0
    (map (fun k =>
            Z.of_nat (List.length
                        (List.filter (fun r => eqb (key r) k) db))) ks)
  = Z.of_nat (List.length db).
Proof.
  intros Hnd. induction db as [|r db IH]; intros Hin.
  - cbn. induction ks as [|k ks IHk]; [reflexivity|].
    cbn [map fold_right]. inversion Hnd; subst. now rewrite IHk.
  - rewrite (map_ext _
       (fun k =>
          Z.of_nat (List.length (List.filter (fun r => eqb (key r) k) db))
          + (if eqb (key r) k then 1 else 0))).
    + rewrite sum_plus, IH, sum_once.
      * cbn [List.length]. lia.
      * exact Hnd.
      * apply Hin. now left.
      * intros r' Hr'. apply Hin. now right.
    + intros k. cbn [List.filter]. destruct (eqb (key r) k); cbn [List.length]; lia.
Qed.

End CountsAddUp.

(** On a table whose versions are all above 2014, the counts GET
    /versions/{v}/count gives for the versions GET /versions lists add up
    to the answer of GET /wkts/count. *)
Theorem version_counts_add_up (db : table) (vs : list Z) (N : Z) :
  Forall (fun r => 2014 < WKT_model.version r) db ->
  get_versions db = Return vs ->
  wkts_count db = Return N ->
  exists counts,
    Forall2 (fun v n => version_count db v = Return n) vs counts
    /\ fold_right Z.add 0 counts = N.
Proof.
  intros Hdb Hvs HN.
  rewrite get_versions_column in Hvs. injection Hvs as <-.
  unfold wkts_count, QuerySet.count in HN. rewrite rows_all in HN.
  injection HN as <-.
  set (vs := QuerySet.column Z.eqb Z.leb WKT_model.version db).
  set (cnt := fun v =>
                Z.of_nat (List.length
                            (List.filter
                               (fun r => WKT_model.version r =? v) db))).
  assert (Hin : forall v, In v vs <->
                          exists r, In r db /\ WKT_model.version r = v)
    by (intros v; apply column_in; exact Z.eqb_eq).
  exists (map cnt vs). split.
  - assert (Hall : Forall (fun v => 2014 < v) vs).
    { apply Forall_forall. intros v Hv. apply Hin in Hv as (r & Hr & <-).
      rewrite Forall_forall in Hdb. now apply Hdb. }
    clear Hin. induction Hall as [|v vs' Hv _ IH]; cbn [map]; constructor.
    + now apply version_count_value.
    + exact IH.
  - apply (counts_add_up Z.eqb WKT_model.version Z.eqb_eq).
    + apply column_nodup. exact Z.eqb_eq.
    + intros r Hr. apply Hin. eauto.
Qed.

(** The sample table: one version, of two records. *)
Lemma version_counts_add_up_witness :
  exists counts,
    Forall2 (fun v n => version_count sample_db v = Return n) [2015] counts
    /\ fold_right Z.add 0 counts = 2.
Proof.
  apply (version_counts_add_up sample_db [2015] 2); [|reflexivity..].
  repeat constructor.
Defined.



(* ================================================================= *)
(** * Further properties of the start-up routine *)

(** ** When the ingestion runs *)

Lemma substring_all (s : string) : String.substring 0 (String.length s) s = s.
Proof. induction s as [|a s IH]; cbn; [reflexivity | now rewrite IH]. Qed.

Lemma sqlite_match (name : string) :
  re.match_ SQLITE_REGEX (SQLITE_PREFIX ++ name)
  = Some (SQLITE_PREFIX ++ Str.take_while (re.cmatch re.Dot) name)%string.
Proof.
  unfold re.match_, SQLITE_REGEX, SQLITE_PREFIX.
  cbn -[re.star Str.take_while].
  now rewrite (star_take_while (re.cmatch re.Dot)).
Qed.

Lemma sqlite_db_name (file : string) :
  db_name (SQLITE_PREFIX ++ file) = file.
Proof.
  unfold db_name, SQLITE_PREFIX. cbn. rewrite Nat.sub_0_r.
  apply substring_all.
Qed.

Lemma literals_prefix (cs : list ascii) (p : re.pattern) (bol : bool)
      (s : string) :
  re.match_here (map (fun c => re.One (re.Lit c)) cs ++ p) bol s <> None ->
  String.prefix (string_of_list_ascii cs) s = true.
Proof.
  revert bol s. induction cs as [|c cs IH]; intros bol s H.
  - now destruct s.
  - cbn [map app] in H. apply match_lit in H as (s' & -> & H).
    cbn [string_of_list_ascii String.prefix].
    destruct (ascii_dec c c) as [_|Hne]; [|now contradiction Hne].
    now apply IH in H.
Qed.

Lemma not_sqlite_no_match (db_url : string) :
  String.prefix SQLITE_PREFIX db_url = false ->
  re.match_ SQLITE_REGEX db_url = None.
Proof.
  intros Hp. destruct (re.match_ SQLITE_REGEX db_url) eqn:E; [|reflexivity].
  assert (H : re.match_here SQLITE_REGEX true db_url <> None)
    by (unfold re.match_ in E; congruence).
  apply literals_prefix in H. cbn in H. unfold SQLITE_PREFIX in Hp.
  congruence.
Qed.

(** The gate of the start-up routine.  For a URL [sqlite://<name>], the
    file is the text of [name] up to its first line feed: when that file is
    on disk the routine succeeds without reading the dataset and leaves the
    table as it is; when it is not, the dataset is ingested.  For a URL
    that does not begin with [sqlite://] the dataset is ingested at every
    start, into whatever the table holds. *)
Theorem startup_gate
        (iau : Type) (int : iau -> result Z) (format : iau -> string)
        (exists_ : string -> bool)
        (index : list (WktDatabase.record iau)) (db : table) :
  (forall name,
     startup_event iau int format (SQLITE_PREFIX ++ name) exists_ index db
     = if exists_ (Str.take_while (re.cmatch re.Dot) name)
       then (Return tt, db)
       else load iau int format index db)
  /\ (forall db_url,
        String.prefix SQLITE_PREFIX db_url = false ->
        startup_event iau int format db_url exists_ index db
        = load iau int format index db).
Proof.
  split.
  - intros name. unfold startup_event, database_absent.
    rewrite sqlite_match, sqlite_db_name.
    now destruct (exists_ _).
  - intros db_url Hp. unfold startup_event, database_absent.
    now rewrite (not_sqlite_no_match db_url Hp).
Qed.

(** A PostgreSQL URL: the dataset is ingested. *)
Lemma startup_gate_witness :
  startup_event Z int_of_int Str.of_int "postgres://host/db" nothing_on_disk
    sample_index []
  = (Return tt, sample_db).
Proof.
  rewrite (proj2 (startup_gate Z int_of_int Str.of_int nothing_on_disk
                    sample_index []) "postgres://host/db" eq_refl).
  reflexivity.
Defined.

(** ** What the loop leaves in the table *)

Section LoadLemmas.

Variable iau : Type.
Variable int : iau -> result Z.
Variable format : iau -> string.

Lemma load_failure (index : list (WktDatabase.record iau)) (db db' : table)
      (e : exn) :
  load iau int format index db = (Raise e, db') ->
  exists done failing rest,
    index = done ++ failing :: rest
    /\ load iau int format done db = (Return tt, db')
    /\ (wkt_data iau int format failing = Raise e
        \/ exists row,
             wkt_data iau int format failing = Return row
             /\ e = IntegrityError
             /\ In (WKT_model.id row) (map WKT_model.id db')).
Proof.
  revert db. induction index as [|record index IH]; intros db H.
  - discriminate.
  - cbn [load] in H.
    destruct (wkt_data iau int format record) as [row|e'] eqn:Hrow.
    + unfold create in H.
      destruct (existsb _ db) eqn:Hdup.
      * injection H as <- <-. exists [], record, index.
        repeat split. right. exists row. repeat split; [exact Hrow|].
        apply existsb_exists in Hdup as (r & Hr & He).
        apply String.eqb_eq in He. rewrite <- He. now apply in_map.
      * apply IH in H as (done & failing & rest & -> & Hdone & Hwhy).
        exists (record :: done), failing, rest. repeat split; [|exact Hwhy].
        cbn [load]. rewrite Hrow. unfold create. now rewrite Hdup.
    + injection H as <- <-. exists [], record, index. repeat split.
      now left.
Qed.

Lemma load_success (index : list (WktDatabase.record iau)) (db db' : table) :
  load iau int format index db = (Return tt, db') ->
  exists rows,
    db' = db ++ rows
    /\ Forall2 (fun record row => wkt_data iau int format record = Return row)
               index rows.
Proof.
  revert db. induction index as [|record index IH]; intros db H.
  - injection H as <-. exists []. split; [now rewrite app_nil_r | constructor].
  - cbn [load] in H.
    destruct (wkt_data iau int format record) as [row|e'] eqn:Hrow;
      [|discriminate].
    unfold create in H. destruct (existsb _ db); [discriminate|].
    apply IH in H as (rows & -> & Hrows).
    exists (row :: rows). split; [now rewrite <- app_assoc|].
    now constructor.
Qed.

End LoadLemmas.

(** When the ingestion stops on an exception, the table holds what the
    ingestion of the entries before the failing one gives, and nothing of
    the entries after it: the rows created so far stay.  The failing entry
    is one whose [wkt_data] raises, or one whose id is already in the
    table. *)
Theorem failed_ingestion_keeps_rows
        (iau : Type) (int : iau -> result Z) (format : iau -> string)
        (index : list (WktDatabase.record iau)) (db db' : table) (e : exn) :
  load iau int format index db = (Raise e, db') ->
  exists done failing rest,
    index = done ++ failing :: rest
    /\ load iau int format done db = (Return tt, db')
    /\ (wkt_data iau int format failing = Raise e
        \/ exists row,
             wkt_data iau int format failing = Return row
             /\ e = IntegrityError
             /\ In (WKT_model.id row) (map WKT_model.id db')).
Proof. apply load_failure. Qed.

(** An entry with a blank datum between two good ones: the first row
    stays. *)
Lemma failed_ingestion_keeps_rows_witness :
  exists done failing rest,
    mars_entry :: blank_entry :: [moon_entry] = done ++ failing :: rest
    /\ load Z int_of_int Str.of_int done [] = (Return tt, [mars_2015])
    /\ (wkt_data Z int_of_int Str.of_int failing = Raise AttributeError
        \/ exists row,
             wkt_data Z int_of_int Str.of_int failing = Return row
             /\ AttributeError = IntegrityError
             /\ In (WKT_model.id row) (map WKT_model.id [mars_2015])).
Proof.
  apply (failed_ingestion_keeps_rows Z int_of_int Str.of_int
           (mars_entry :: blank_entry :: [moon_entry]) [] [mars_2015]
           AttributeError).
  reflexivity.
Defined.

(** When the ingestion succeeds, the table is the one before followed by
    one row for each entry of the dataset, in the order of the dataset, and
    GET /wkts/count grows by the number of entries. *)
Theorem successful_ingestion_appends
        (iau : Type) (int : iau -> result Z) (format : iau -> string)
        (index : list (WktDatabase.record iau)) (db db' : table) :
  load iau int format index db = (Return tt, db') ->
  (exists rows,
     db' = db ++ rows
     /\ Forall2 (fun record row => wkt_data iau int format record = Return row)
                index rows)
  /\ wkts_count db'
     = Return (Z.of_nat (List.length db) + Z.of_nat (List.length index)).
Proof.
  intros H. apply load_success in H as (rows & -> & Hrows).
  split; [now exists rows|].
  unfold wkts_count, QuerySet.count. rewrite rows_all, length_app.
  rewrite <- (Forall2_length Hrows). f_equal. lia.
Qed.

(** The sample dataset into a new table. *)
Lemma successful_ingestion_appends_witness :
  wkts_count sample_db
  = Return (Z.of_nat (List.length (@nil WKT_model.t))
            + Z.of_nat (List.length sample_index)).
Proof.
  apply (successful_ingestion_appends Z int_of_int Str.of_int sample_index
           [] sample_db).
  reflexivity.
Defined.

(** ** The row of an entry *)







Lemma append_empty_r (s : string) : (s ++ "")%string = s.
Proof. induction s as [|a s IH]; cbn; [reflexivity | now rewrite IH]. Qed.

(** When the version and the code of an entry are rendered as digits, the
    id of its row passes the validation of the three routes that take a
    [wkt_id]: what the loader stores can be asked for. *)
Theorem row_id_is_valid
        (iau : Type) (int : iau -> result Z) (format : iau -> string)
        (record : WktDatabase.record iau) (row : WKT_model.t) :
  wkt_data iau int format record = Return row ->
  Str.forallb Str.isdigit (format (WktDatabase.iau_version record)) = true ->
  Str.forallb Str.isdigit (format (WktDatabase.iau_code record)) = true ->
  regex_param WKT_ID_REGEX (WKT_model.id row) = Return (WKT_model.id row)
  /\ regex_param WKT_ID_REGEX_OPEN (WKT_model.id row)
     = Return (WKT_model.id row).
Proof.
  intros Hrow Hv Hc.
  assert (Hid : WKT_model.id row
                = ("IAU:" ++ format (WktDatabase.iau_version record) ++ ":"
                     ++ format (WktDatabase.iau_code record))%string).
  { unfold wkt_data in Hrow.
    destruct (int (WktDatabase.iau_version record)); cbn [bind] in Hrow;
      [|discriminate].
    destruct (int (WktDatabase.iau_code record)); cbn [bind] in Hrow;
      [|discriminate].
    destruct (group0 _); cbn [bind] in Hrow; [|discriminate].
    now injection Hrow as <-. }
  assert (Hshape : wkt_id_shape (WKT_model.id row)).
  { rewrite Hid.
    exists "IAU", (format (WktDatabase.iau_version record)),
           (format (WktDatabase.iau_code record)), EmptyString.
    repeat split; auto.
    now rewrite append_empty_r. }
  split.
  - apply regex_param_accepts. now apply wkt_id_regex_shape.
  - apply regex_param_accepts. now apply wkt_id_shape_open.
Qed.

(** The id of the Mars row. *)
Lemma row_id_is_valid_witness :
  regex_param WKT_ID_REGEX (WKT_model.id mars_2015)
  = Return (WKT_model.id mars_2015)
  /\ regex_param WKT_ID_REGEX_OPEN (WKT_model.id mars_2015)
     = Return (WKT_model.id mars_2015).
Proof.
  apply (row_id_is_valid Z int_of_int Str.of_int mars_entry mars_2015);
    reflexivity.
Defined.

(** ** The count of a solar body and the case of the letters *)

Lemma lower_char_idempotent (a : ascii) :
  Str.lower_char (Str.lower_char a) = Str.lower_char a.
Proof. destruct a as [[] [] [] [] [] [] [] []]; reflexivity. Qed.

Lemma lower_idempotent (s : string) : Str.lower (Str.lower s) = Str.lower s.
Proof.
  induction s as [|a s IH]; cbn; [reflexivity|].
  now rewrite lower_char_idempotent, IH.
Qed.

(** GET /solar_bodies/{b}/count gives the very same answer for two solar
    bodies that are equal after lowercasing, and so for a solar body and
    its lowercase form; unlike the two other routes of a solar body it
    has no message that repeats the name. *)
Theorem solar_body_count_ignores_case
        (db : table) (b1 b2 : string) (limit offset : option Z) :
  Str.lower b1 = Str.lower b2 ->
  get_solar_body_count db b1 limit offset
  = get_solar_body_count db b2 limit offset
  /\ get_solar_body_count db (Str.lower b1) limit offset
     = get_solar_body_count db b2 limit offset.
Proof.
  intros Hb.
  assert (H : forall x y, Str.lower x = Str.lower y ->
                get_solar_body_count db x limit offset
                = get_solar_body_count db y limit offset).
  { intros x y Hxy. unfold get_solar_body_count.
    destruct (query_param LIMIT_QUERY limit) as [l|e]; cbn [bind];
      [|reflexivity].
    destruct (query_param OFFSET_QUERY offset) as [o|e]; cbn [bind];
      [|reflexivity].
    unfold QuerySet.count. rewrite !rows_page_filter.
    now rewrite (filter_ext _ _ (fun r => solar_body_is_lower x y r Hxy)). }
  split; apply H; [exact Hb|]. now rewrite lower_idempotent.
Qed.

(** Mars in capitals and in small letters. *)
Lemma solar_body_count_ignores_case_witness :
  get_solar_body_count sample_db "MARS" None None
  = get_solar_body_count sample_db "mars" None None
  /\ get_solar_body_count sample_db (Str.lower "MARS") None None
     = get_solar_body_count sample_db "mars" None None.
Proof.
  apply (solar_body_count_ignores_case sample_db "MARS" "mars" None None).
  reflexivity.
Defined.
